(** * Token lifecycle and request metrics of linkedin-mcpserver

    A shallow embedding of [src/services/token.service.ts] (module [Token])
    and [src/services/metrics.service.ts] (module [Metrics]).

    JavaScript values are modelled as follows: [string | null | undefined]
    as [option string], with the empty string falsy as in JS; timestamps
    (Date.now(), milliseconds) as [Z]; response times as [Q], with the
    arithmetic of [getPercentile] carried out in IEEE-754 doubles (the
    primitive [float]) as JavaScript does.  The
    asynchronous [fetchToken] is split at its single [await]: the part that
    runs synchronously when it is called ([fetchToken_start], plus the
    [catch] block when that part throws) and the part that runs when the
    token-endpoint request settles ([fetchToken_resume]). *)

From Stdlib Require Import String List ZArith QArith Qround Lqa Lia Bool Sorted Floats.
Import ListNotations.

Open Scope Z_scope.

Module Token.

(** The mutable fields of [TokenService]. *)
Record TokenService := mkTokenService {
  accessToken : option string;
  refreshToken : option string;
  tokenExpiry : option Z
}.

(** What [AuthConfig] hands out; the client id and secret are optional in
    the environment schema. *)
Record AuthConfig := mkAuthConfig {
  clientId : option string;
  clientSecret : option string;
  authUrl : string
}.

Inductive grantType := client_credentials | refresh_token.

(** The query parameters of [POST {authUrl}/accessToken]. *)
Record params := mkParams {
  p_client_id : string;
  p_client_secret : string;
  p_grant_type : grantType;
  p_refresh_token : option string
}.

(** [response.data] of a 2xx answer; a missing field is [None]. *)
Record response := mkResponse {
  access_token : option string;
  refresh_token_r : option string;
  expires_in : Z
}.

(** How the awaited [axios.post] settles: rejected (network error, non-2xx
    status) with an [Error] carrying a message, or fulfilled. *)
Inductive outcome :=
| Rejected (message : string)
| Fulfilled (r : response).

(** A thrown [Error] with its message. *)
Inductive error := Error (message : string).

Definition MSG_NOT_AUTHENTICATED : string :=
  "Authentication required. Please call authenticate() first.".
Definition MSG_NO_CREDENTIALS : string :=
  "Client credentials not configured. Cannot refresh token without LINKEDIN_CLIENT_ID and LINKEDIN_CLIENT_SECRET.".
Definition MSG_NO_REFRESH_TOKEN : string := "No refresh token available.".
Definition AUTH_FAILED_PREFIX : string := "Authentication failed: ".

(** The error [getAccessToken] throws without a token. *)
Definition NotAuthenticatedError : error := Error MSG_NOT_AUTHENTICATED.

(** JS truthiness of [string | null] and [number | null]. *)
Definition truthy_str (o : option string) : bool :=
  match o with Some s => negb (String.eqb s EmptyString) | None => false end.

Definition EXPIRY_THRESHOLD : Z := 5 * 60 * 1000.

(** [!!(this.accessToken && (this.tokenExpiry ? Date.now() < this.tokenExpiry : true))] *)
Definition hasValidToken (now : Z) (st : TokenService) : bool :=
  truthy_str (accessToken st) &&
  match tokenExpiry st with
  | Some e => if e =? 0 then true else now <? e
  | None => true
  end.

(** [this.tokenExpiry ? this.tokenExpiry - Date.now() < EXPIRY_THRESHOLD : false] *)
Definition isTokenExpiringSoon (now : Z) (st : TokenService) : bool :=
  match tokenExpiry st with
  | Some e => if e =? 0 then false else e - now <? EXPIRY_THRESHOLD
  | None => false
  end.

(** [resetTokens()] *)
Definition resetTokens : TokenService := mkTokenService None None None.

(** The synchronous prefix of [fetchToken(grantType)], up to the [await]:
    either the message of the error thrown inside the [try], or the
    parameters of the request that is sent. *)
Definition fetchToken_start (cfg : AuthConfig) (grant : grantType)
    (st : TokenService) : string + params :=
  match clientId cfg, clientSecret cfg with
  | Some cid, Some csec =>
      if String.eqb cid EmptyString || String.eqb csec EmptyString
      then inl MSG_NO_CREDENTIALS
      else
        match grant with
        | client_credentials => inr (mkParams cid csec client_credentials None)
        | refresh_token =>
            if truthy_str (refreshToken st)
            then inr (mkParams cid csec refresh_token (refreshToken st))
            else inl MSG_NO_REFRESH_TOKEN
        end
  | _, _ => inl MSG_NO_CREDENTIALS
  end.

(** The [catch] block: reset every field and throw a new [Error]. *)
Definition fetchToken_catch (message : string) : error * TokenService :=
  (Error (AUTH_FAILED_PREFIX ++ message), resetTokens).

(** The continuation after [await axios.post(...)], run at time [now] on the
    state [st] current at that moment; [None] means the promise resolved. *)
Definition fetchToken_resume (now : Z) (o : outcome) (st : TokenService)
    : option error * TokenService :=
  match o with
  | Rejected m =>
      let '(e, st') := fetchToken_catch m in (Some e, st')
  | Fulfilled r =>
      (None,
       mkTokenService (access_token r)
         (match refresh_token_r r with
          | Some x => Some x
          | None => refreshToken st
          end)
         (Some (now + expires_in r * 1000)))
  end.

(** An awaited [fetchToken(grant)] with no other task running in between;
    [net] answers the request, which settles at time [now].  Also returns
    the requests sent to the token endpoint. *)
Definition fetchToken (cfg : AuthConfig) (net : params -> outcome) (now : Z)
    (grant : grantType) (st : TokenService)
    : option error * TokenService * list params :=
  match fetchToken_start cfg grant st with
  | inl m => let '(e, st') := fetchToken_catch m in (Some e, st', [])
  | inr p => let '(e, st') := fetchToken_resume now (net p) st in (e, st', [p])
  end.

(** [authenticate()]: the validity check runs at [now0], a fetch settles
    at [now1]. *)
Definition authenticate (cfg : AuthConfig) (net : params -> outcome)
    (now0 now1 : Z) (st : TokenService)
    : option error * TokenService * list params :=
  if hasValidToken now0 st then (None, st, [])
  else fetchToken cfg net now1
         (if truthy_str (refreshToken st) then refresh_token else client_credentials)
         st.

(** [getAccessToken()]: either the thrown error or the returned value
    ([this.accessToken], read after the refresh was started), the state
    afterwards, and the request of the background refresh left in flight.
    A rejection of the background promise is handled by its [.catch],
    which only logs. *)
Definition getAccessToken (cfg : AuthConfig) (now : Z) (st : TokenService)
    : (error + option string) * TokenService * option params :=
  if negb (truthy_str (accessToken st)) then (inl NotAuthenticatedError, st, None)
  else if isTokenExpiringSoon now st then
    match fetchToken_start cfg refresh_token st with
    | inl m =>
        let st' := snd (fetchToken_catch m) in (inr (accessToken st'), st', None)
    | inr p => (inr (accessToken st), st, Some p)
    end
  else (inr (accessToken st), st, None).

(** The background refresh settling later, at [now], on the then-current
    state; its error, if any, is swallowed by [.catch]. *)
Definition backgroundSettle (now : Z) (o : outcome) (st : TokenService) : TokenService :=
  snd (fetchToken_resume now o st).

(** What can happen to the token service from a given moment on: a
    [getAccessToken()] call, or a token request sent earlier (a background
    refresh still in flight) settling. *)
Inductive token_event :=
| CallGetAccessToken (now : Z)
| SettleRequest (now : Z) (o : outcome).

(** The results of the [getAccessToken()] calls of a sequence of events,
    and the state afterwards.  A request a call starts settles as a later
    [SettleRequest] event. *)
Fixpoint runTokenEvents (cfg : AuthConfig) (evs : list token_event) (st : TokenService)
    : list (error + option string) * TokenService :=
  match evs with
  | [] => ([], st)
  | CallGetAccessToken now :: evs' =>
      let '(r, st1, _) := getAccessToken cfg now st in
      let '(rs, st2) := runTokenEvents cfg evs' st1 in (r :: rs, st2)
  | SettleRequest now o :: evs' => runTokenEvents cfg evs' (backgroundSettle now o st)
  end.

(** A request that succeeds with a (non-empty) access token. *)
Definition restores_token (ev : token_event) : bool :=
  match ev with
  | SettleRequest _ (Fulfilled r) => truthy_str (access_token r)
  | _ => false
  end.

(** A configuration with client credentials. *)
Definition cfg0 : AuthConfig := mkAuthConfig (Some "id"%string) (Some "secret"%string) "https://www.linkedin.com/oauth/v2"%string.

(** A token endpoint whose 2xx answers lack [access_token]. *)
Definition no_access_token_net : params -> outcome :=
  fun _ => Fulfilled (mkResponse None None 3600).

End Token.

Module Metrics.

Inductive MetricCategory := search | profile | job | message | connection | auth | other.

Definition cat_eqb (a b : MetricCategory) : bool :=
  match a, b with
  | search, search | profile, profile | job, job | message, message
  | connection, connection | auth, auth | other, other => true
  | _, _ => false
  end.

(** The key order of the [Record<MetricCategory, ...>] objects. *)
Definition allCategories : list MetricCategory :=
  [search; profile; job; message; connection; auth; other].

(** [Array.prototype.sort] with a comparator, which is stable: [le a b] is
    [compareFn(a, b) <= 0], i.e. [a] may stay before [b]. *)
Section Sort.
Context {A : Type} (le : A -> A -> bool).

Fixpoint sort_insert (x : A) (l : list A) : list A :=
  match l with
  | [] => [x]
  | y :: l' => if le x y then x :: l else y :: sort_insert x l'
  end.

Fixpoint js_sort (l : list A) : list A :=
  match l with
  | [] => []
  | x :: l' => sort_insert x (js_sort l')
  end.
End Sort.

(** [categoryMapping], in insertion order. *)
Definition categoryMapping : list (string * MetricCategory) :=
  [("/search/people", search); ("/people", profile); ("/jobs", job);
   ("/messages", message); ("/connections", connection); ("/me", profile);
   ("/networkSizes", connection); ("/auth", auth)]%string.

Fixpoint mapping_lookup (k : string) (m : list (string * MetricCategory)) : MetricCategory :=
  match m with
  | [] => other
  | (k', c) :: m' => if String.eqb k k' then c else mapping_lookup k m'
  end.

(** [(a, b) => b.length - a.length]: [a] stays before [b] when
    [b.length - a.length <= 0]. *)
Definition longer_first (a b : string) : bool := Nat.leb (String.length b) (String.length a).

(** [getCategoryFromEndpoint(endpoint)]; [String.prefix p e] is
    [e.startsWith(p)]. *)
Definition getCategoryFromEndpoint (endpoint : string) : MetricCategory :=
  match js_sort longer_first
          (filter (fun prefix => String.prefix prefix endpoint) (map fst categoryMapping)) with
  | matchingPrefix :: _ =>
      if String.eqb matchingPrefix EmptyString then other
      else mapping_lookup matchingPrefix categoryMapping
  | [] => other
  end.

Definition DEFAULT_HISTORY_SIZE : nat := 100.

(** The three per-category records of [MetricsService]. *)
Record MetricsService := mkMetrics {
  requestCounts : MetricCategory -> Z;
  lastRequestTimestamps : MetricCategory -> option Z;
  responseTimes : MetricCategory -> list Q
}.

Definition upd {V} (f : MetricCategory -> V) (c : MetricCategory) (v : V) : MetricCategory -> V :=
  fun c' => if cat_eqb c' c then v else f c'.

Definition initMetrics : MetricsService :=
  mkMetrics (fun _ => 0) (fun _ => None) (fun _ => []).

(** [recordRequest(endpoint, responseTimeMs)] at time [now]: [push], then
    one [shift] when the length exceeds the bound. *)
Definition recordRequest (now : Z) (endpoint : string) (responseTimeMs : Q)
    (m : MetricsService) : MetricsService :=
  let category := getCategoryFromEndpoint endpoint in
  let pushed := responseTimes m category ++ [responseTimeMs] in
  let times := if Nat.ltb DEFAULT_HISTORY_SIZE (length pushed) then tl pushed else pushed in
  mkMetrics (upd (requestCounts m) category (requestCounts m category + 1))
            (upd (lastRequestTimestamps m) category (Some now))
            (upd (responseTimes m) category times).

(** [resetMetrics()] *)
Definition resetMetrics (m : MetricsService) : MetricsService :=
  mkMetrics (fun _ => 0) (fun _ => None) (fun _ => []).

(** A JS number that may be [-Infinity] ([Math.max()] of nothing). *)
Inductive num_ext := Fin (z : Z) | NegInfinity.

Record MetricData := mkMetricData {
  requestCount : Z;
  lastRequestTimestamp : option num_ext;
  averageResponseTime : Q;
  p50ResponseTime : option Q;
  p90ResponseTime : option Q;
  p95ResponseTime : option Q;
  p99ResponseTime : option Q;
  minResponseTime : Q;
  maxResponseTime : Q
}.

Record DetailedMetrics := mkDetailed {
  overall : MetricData;
  byCategory : MetricCategory -> MetricData
}.

(** [Math.round]: nearest integer, halves towards +infinity. *)
Definition js_round (q : Q) : Q := inject_Z (Qfloor (q + (1 # 2))).

(** [sortedValues[i]]; [None] is [undefined], whose arithmetic is NaN. *)
Definition at_index (l : list Q) (i : Z) : option Q :=
  if i <? 0 then None else nth_error l (Z.to_nat i).

(** The JS number (an IEEE-754 double) of an integer: the nearest double,
    the integer itself when it is at most 2^53 in magnitude. *)
Definition double_of_Z (z : Z) : float :=
  SF2Prim (SpecFloat.binary_normalize FloatOps.prec FloatOps.emax z 0 false).

(** The JS number of a value held as a rational: the correctly rounded
    quotient of its numerator and denominator, i.e. the value itself when
    it is a double (as the whole-millisecond response times are). *)
Definition double_of_Q (q : Q) : float :=
  (double_of_Z (Qnum q) / double_of_Z (Zpos (Qden q)))%float.

(** The exact value of a finite double; [None] for NaN and infinities. *)
Definition Q_of_double (f : float) : option Q :=
  match Prim2SF f with
  | SpecFloat.S754_zero _ => Some 0%Q
  | SpecFloat.S754_finite s m e =>
      Some (inject_Z (if s then Zneg m else Zpos m) * Qpower 2 e)%Q
  | _ => None
  end.

(** [(percentile / 100) * (sortedValues.length - 1)] in doubles. *)
Definition percentile_index_double (percentile : Q) (n : nat) : float :=
  (double_of_Q percentile / double_of_Z 100 * double_of_Z (Z.of_nat n - 1))%float.

(** [sortedValues[lower] * (1 - weight) + sortedValues[upper] * weight] in
    doubles. *)
Definition interpolate_double (a b : Q) (weight : float) : float :=
  (double_of_Q a * (double_of_Z 1 - weight) + double_of_Q b * weight)%float.

(** [getPercentile(sortedValues, percentile)]; [None] is NaN.
    [Math.floor], [Math.ceil] and [Math.round] act on the exact value of
    the double they are given, and [lower === upper] compares integers. *)
Definition getPercentile (sortedValues : list Q) (percentile : Q) : option Q :=
  match sortedValues with
  | [] => Some 0%Q
  | [v] => Some v
  | _ =>
      let index := percentile_index_double percentile (length sortedValues) in
      match Q_of_double index with
      | None => None
      | Some i =>
          let lower := Qfloor i in
          let upper := Qceiling i in
          if lower =? upper then at_index sortedValues lower
          else
            let weight := (index - double_of_Z lower)%float in
            match at_index sortedValues lower, at_index sortedValues upper with
            | Some a, Some b => option_map js_round (Q_of_double (interpolate_double a b weight))
            | _, _ => None
            end
      end
  end.



Definition numeric_le (a b : Q) : bool := Qle_bool a b.

Definition sumQ (l : list Q) : Q := fold_left (fun s t => s + t)%Q l 0%Q.

Definition zeroMetricData (count : Z) (ts : option num_ext) : MetricData :=
  mkMetricData count ts 0%Q (Some 0%Q) (Some 0%Q) (Some 0%Q) (Some 0%Q) 0%Q 0%Q.

(** [getMetricsForCategory(category)] *)
Definition getMetricsForCategory (m : MetricsService) (category : MetricCategory) : MetricData :=
  let times := responseTimes m category in
  let ts := option_map Fin (lastRequestTimestamps m category) in
  match times with
  | [] => zeroMetricData (requestCounts m category) ts
  | _ =>
      let sortedTimes := js_sort numeric_le times in
      mkMetricData (requestCounts m category) ts
        (js_round (sumQ times / inject_Z (Z.of_nat (length times))))
        (getPercentile sortedTimes 50) (getPercentile sortedTimes 90)
        (getPercentile sortedTimes 95) (getPercentile sortedTimes 99)
        (nth 0 sortedTimes 0%Q) (last sortedTimes 0%Q)
  end.

(** [Math.max(...values)] *)
Definition js_max (l : list Z) : num_ext :=
  fold_left (fun acc z => match acc with NegInfinity => Fin z | Fin a => Fin (Z.max a z) end)
            l NegInfinity.

(** [x || null] on a number (0 is falsy, -Infinity is not). *)
Definition or_null (x : num_ext) : option num_ext :=
  match x with Fin 0 => None | _ => Some x end.

Fixpoint filter_some (l : list (option Z)) : list Z :=
  match l with
  | [] => []
  | Some z :: l' => z :: filter_some l'
  | None :: l' => filter_some l'
  end.

(** [getDetailedMetrics()] *)
Definition getDetailedMetrics (m : MetricsService) : DetailedMetrics :=
  let allTimes := flat_map (responseTimes m) allCategories in
  let sortedAllTimes := js_sort numeric_le allTimes in
  let totalRequests := fold_left (fun s c => s + requestCounts m c) allCategories 0 in
  let lastTimestamp := js_max (filter_some (map (lastRequestTimestamps m) allCategories)) in
  let ov :=
    match allTimes with
    | _ :: _ =>
        mkMetricData totalRequests (or_null lastTimestamp)
          (js_round (sumQ allTimes / inject_Z (Z.of_nat (length allTimes))))
          (getPercentile sortedAllTimes 50) (getPercentile sortedAllTimes 90)
          (getPercentile sortedAllTimes 95) (getPercentile sortedAllTimes 99)
          (nth 0 sortedAllTimes 0%Q) (last sortedAllTimes 0%Q)
    | [] =>
        zeroMetricData totalRequests
          (if 0 <? totalRequests then or_null lastTimestamp else None)
    end in
  mkDetailed ov (getMetricsForCategory m).

(** A call [recordRequest(endpoint, time)] made at [ev_now]. *)
Record event := mkEvent { ev_now : Z; ev_endpoint : string; ev_time : Q }.

Definition runRecords (tr : list event) (m : MetricsService) : MetricsService :=
  fold_left (fun m ev => recordRequest (ev_now ev) (ev_endpoint ev) (ev_time ev) m) tr m.

Definition events_of (c : MetricCategory) (tr : list event) : list event :=
  filter (fun ev => cat_eqb (getCategoryFromEndpoint (ev_endpoint ev)) c) tr.

(** The samples recorded into [c], oldest first. *)
Definition samples (c : MetricCategory) (tr : list event) : list Q :=
  map ev_time (events_of c tr).

(** The last [n] elements of a list. *)
Definition lastn {A} (n : nat) (l : list A) : list A := skipn (length l - n) l.

(** The 150 calls [recordRequest("/jobs", i)] for [i] = 1..150. *)
Definition jobs_150 : list event :=
  map (fun i => mkEvent 0 "/jobs"%string (inject_Z (Z.of_nat i))) (seq 1 150).

(** The first element of a list sorted longest-first is a longest one. *)
Definition longest_head (r : list string) : Prop :=
  match r with
  | [] => True
  | h :: _ => forall z, In z r -> (String.length z <= String.length h)%nat
  end.

(** One [push] followed by at most one [shift]. *)
Definition fifo_push (h : list Q) (x : Q) : list Q :=
  let pushed := h ++ [x] in
  if Nat.ltb DEFAULT_HISTORY_SIZE (length pushed) then tl pushed else pushed.

End Metrics.

(** [makeRequest] of [src/services/client.service.ts] (the same sequence of
    steps as [MarketingService.makeRequest]): authenticate, read the token,
    await the API call, then record the request in the metrics. *)
Module Client.
Import Token Metrics.

(** How the awaited API call (the [RestliClient] or [axios] request chosen
    by [method], given the resource path and the access token) settles. *)
Inductive api_outcome (T : Type) :=
| ApiRejected (message : string)
| ApiFulfilled (data : T).
Arguments ApiRejected {T} message.
Arguments ApiFulfilled {T} data.

(** What [makeRequest] rethrows: an error of the token service or of the
    API call. *)
Inductive request_error :=
| TokenError (e : error)
| ApiError (message : string).

(** The successive [Date.now()] readings of one call: [startTime], the
    validity check in [authenticate], the settling of a token fetch, the
    check in [getAccessToken], [responseTime], and the one inside
    [recordRequest]. *)
Record clock := mkClock {
  t_start : Z; t_check : Z; t_fetch : Z; t_access : Z; t_end : Z; t_record : Z
}.

(** [makeRequest(method, resourcePath, ...)]: the result, the token state
    and the metrics afterwards, the token-endpoint requests sent by
    [authenticate], and the background refresh left in flight. The client's
    [makeV2Request] and the Marketing service's [makeRequest] run the same
    sequence with an [axios] request in place of the [RestliClient] one. *)
Definition makeRequest {T} (cfg : AuthConfig) (net : params -> outcome)
    (api : string -> option string -> api_outcome T) (clk : clock)
    (resourcePath : string) (st : TokenService) (m : MetricsService)
    : (request_error + T) * TokenService * MetricsService * list params * option params :=
  let startTime := t_start clk in
  let '(e, st1, calls) := authenticate cfg net (t_check clk) (t_fetch clk) st in
  match e with
  | Some err => (inl (TokenError err), st1, m, calls, None)
  | None =>
      let '(r, st2, bg) := getAccessToken cfg (t_access clk) st1 in
      match r with
      | inl err => (inl (TokenError err), st2, m, calls, bg)
      | inr accessToken =>
          match api resourcePath accessToken with
          | ApiRejected msg => (inl (ApiError msg), st2, m, calls, bg)
          | ApiFulfilled data =>
              let responseTime := t_end clk - startTime in
              (inr data, st2,
               recordRequest (t_record clk) resourcePath (inject_Z responseTime) m,
               calls, bg)
          end
      end
  end.

(** [ClientMetrics] and [getBasicMetrics()]: the overall figures of
    [getDetailedMetrics()]. *)
Record ClientMetrics := mkClientMetrics {
  cm_requestCount : Z;
  cm_lastRequestTimestamp : option num_ext;
  averageRequestTime : Q
}.

Definition getBasicMetrics (m : MetricsService) : ClientMetrics :=
  let metrics := overall (getDetailedMetrics m) in
  mkClientMetrics (requestCount metrics) (lastRequestTimestamp metrics)
    (averageResponseTime metrics).

End Client.

(** * Token lifecycle: properties *)
Module TokenFacts.
Import Token.

Lemma truthy_str_some s : s <> EmptyString -> truthy_str (Some s) = true.
Proof. intros H. unfold truthy_str. rewrite (proj2 (String.eqb_neq _ _) H). reflexivity. Qed.

Lemma getAccessToken_reset cfg now :
  getAccessToken cfg now resetTokens = (inl NotAuthenticatedError, resetTokens, None).
Proof. reflexivity. Qed.

Lemma fetchToken_catch_reset m : snd (fetchToken_catch m) = resetTokens.
Proof. reflexivity. Qed.

Example hasValidToken_expired :
  hasValidToken 5000 (mkTokenService (Some "tok"%string) (Some "rt"%string) (Some 1000)) = false.
Proof. reflexivity. Qed.

(** Without a token, every [getAccessToken()] call throws until a token
    request succeeds with an access token; none of them starts a request. *)
Lemma tokenless_run_throws (cfg : AuthConfig) (evs : list token_event) (st : TokenService) :
  truthy_str (accessToken st) = false ->
  forallb (fun ev => negb (restores_token ev)) evs = true ->
  Forall (fun r => r = inl NotAuthenticatedError) (fst (runTokenEvents cfg evs st)) /\
  truthy_str (accessToken (snd (runTokenEvents cfg evs st))) = false.
Proof.
  revert st. induction evs as [| ev evs IH]; intros st Ht Hevs; [split; [constructor | exact Ht] |].
  simpl in Hevs. apply andb_prop in Hevs. destruct Hevs as [Hev Hevs].
  destruct ev as [now | now o]; simpl.
  - unfold getAccessToken. rewrite Ht. simpl.
    destruct (IH st Ht Hevs) as [H1 H2].
    destruct (runTokenEvents cfg evs st) as [rs st2]. simpl in *.
    split; [constructor; [reflexivity | exact H1] | exact H2].
  - apply IH; [| exact Hevs].
    destruct o as [m | r]; [reflexivity |]. simpl in Hev |- *.
    destruct (truthy_str (access_token r)); [discriminate | reflexivity].
Qed.

(** C1 (as amended): when a background refresh started by [getAccessToken()]
    fails, [getAccessToken()] itself still returns without throwing, but the
    failure clears [accessToken], [refreshToken] and [tokenExpiry]: when the
    refresh fails before its request is sent this happens at once, and when
    the request is rejected later this happens when it settles, whatever the
    state is at that time; until then the held state is unchanged.  From
    then on every [getAccessToken()] call throws [NotAuthenticatedError],
    until a token request succeeds with an access token (a later
    [authenticate()], or another refresh still in flight). *)
Lemma background_refresh_failure_clears (cfg : AuthConfig) (now : Z) (st : TokenService) :
  truthy_str (accessToken st) = true ->
  isTokenExpiringSoon now st = true ->
  let '(r, st1, bg) := getAccessToken cfg now st in
  (exists v, r = inr v) /\
  match bg with
  | None =>
      st1 = resetTokens /\
      forall evs, forallb (fun ev => negb (restores_token ev)) evs = true ->
        Forall (fun r => r = inl NotAuthenticatedError) (fst (runTokenEvents cfg evs st1))
  | Some _ =>
      st1 = st /\
      forall (now' : Z) (m : string) (st' : TokenService),
        backgroundSettle now' (Rejected m) st' = resetTokens /\
        forall evs, forallb (fun ev => negb (restores_token ev)) evs = true ->
          Forall (fun r => r = inl NotAuthenticatedError)
            (fst (runTokenEvents cfg evs (backgroundSettle now' (Rejected m) st')))
  end.
Proof.
  intros Htok Hsoon. unfold getAccessToken. rewrite Htok, Hsoon. simpl.
  destruct (fetchToken_start cfg refresh_token st) as [m | p].
  - split; [eauto | split; [reflexivity |]].
    intros evs Hevs. apply tokenless_run_throws; [reflexivity | exact Hevs].
  - split; [eauto | split; [reflexivity |]].
    intros now' m st'. split; [reflexivity |].
    intros evs Hevs. apply tokenless_run_throws; [reflexivity | exact Hevs].
Qed.

Lemma background_refresh_failure_clears_witness :
  truthy_str (Some "tok"%string) = true /\
  isTokenExpiringSoon 0 (mkTokenService (Some "tok"%string) (Some "rt"%string) (Some 60000)) = true /\
  (let '(r, st1, bg) := getAccessToken cfg0 0 (mkTokenService (Some "tok"%string) (Some "rt"%string) (Some 60000)) in
   (exists v, r = inr v) /\
   match bg with
   | None =>
       st1 = resetTokens /\
       forall evs, forallb (fun ev => negb (restores_token ev)) evs = true ->
         Forall (fun r => r = inl NotAuthenticatedError) (fst (runTokenEvents cfg0 evs st1))
   | Some _ =>
       st1 = mkTokenService (Some "tok"%string) (Some "rt"%string) (Some 60000) /\
       forall (now' : Z) (m : string) (st' : TokenService),
         backgroundSettle now' (Rejected m) st' = resetTokens /\
         forall evs, forallb (fun ev => negb (restores_token ev)) evs = true ->
           Forall (fun r => r = inl NotAuthenticatedError)
             (fst (runTokenEvents cfg0 evs (backgroundSettle now' (Rejected m) st')))
   end).
Proof.
  split; [reflexivity | split; [reflexivity |]].
  apply (background_refresh_failure_clears cfg0 0
           (mkTokenService (Some "tok"%string) (Some "rt"%string) (Some 60000)));
    reflexivity.
Defined.

(** The clearing lasts only until a request succeeds: two refreshes sent at
    0 and 10 are in flight; the first is rejected, so the next call throws,
    and the second then succeeds with ["a2"], which the next call returns
    without any [authenticate()]. *)
Example two_background_refreshes_race :
  let st := mkTokenService (Some "tok"%string) (Some "rt"%string) (Some 60000) in
  snd (getAccessToken cfg0 0 st) <> None /\
  snd (getAccessToken cfg0 10 (snd (fst (getAccessToken cfg0 0 st)))) <> None /\
  fst (runTokenEvents cfg0
         [SettleRequest 100 (Rejected "Network Error"%string); CallGetAccessToken 200;
          SettleRequest 300 (Fulfilled (mkResponse (Some "a2"%string) None 3600));
          CallGetAccessToken 400]
         (snd (fst (getAccessToken cfg0 10 (snd (fst (getAccessToken cfg0 0 st)))))))
    = [inl NotAuthenticatedError; inr (Some "a2"%string)].
Proof. split; [discriminate | split; [discriminate | reflexivity]]. Qed.

(** C1 is false as stated: with token ["tok"] expiring in one minute, a
    refresh token and client credentials, [getAccessToken()] returns ["tok"]
    and sends a refresh request; when that request is rejected the
    credential is no longer unchanged and the next [getAccessToken()] does
    not return ["tok"] but throws. *)
Lemma background_refresh_failure_counterexample :
  let st := mkTokenService (Some "tok"%string) (Some "rt"%string) (Some 60000) in
  let '(r, st1, bg) := getAccessToken cfg0 0 st in
  r = inr (Some "tok"%string) /\ st1 = st /\ bg <> None /\
  backgroundSettle 1000 (Rejected "Network Error"%string) st1 <> st /\
  fst (fst (getAccessToken cfg0 2000 (backgroundSettle 1000 (Rejected "Network Error"%string) st1)))
    <> inr (Some "tok"%string).
Proof. simpl. repeat split; discriminate. Qed.

Lemma hasValidToken_true now st s :
  accessToken st = Some s -> s <> EmptyString ->
  (tokenExpiry st = None \/ exists e, tokenExpiry st = Some e /\ now < e) ->
  hasValidToken now st = true.
Proof.
  intros Hs Hne Hexp. unfold hasValidToken. rewrite Hs, (truthy_str_some s Hne). simpl.
  destruct Hexp as [-> | [e [-> Hlt]]]; [reflexivity |].
  destruct (e =? 0); [reflexivity | apply Z.ltb_lt; exact Hlt].
Qed.

(** C2: with a non-empty access token whose expiry is absent or still in
    the future, [authenticate()] resolves, sends no request and leaves the
    state as it is; two successive calls with the token still valid send no
    request at all. *)
Lemma authenticate_valid_noop (cfg : AuthConfig) (net : params -> outcome)
    (now0 now1 now0' now1' : Z) (st : TokenService) (s : string) :
  accessToken st = Some s -> s <> EmptyString ->
  (tokenExpiry st = None \/ exists e, tokenExpiry st = Some e /\ now0 < e) ->
  (tokenExpiry st = None \/ exists e, tokenExpiry st = Some e /\ now0' < e) ->
  authenticate cfg net now0 now1 st = (None, st, []) /\
  (let '(_, st1, calls1) := authenticate cfg net now0 now1 st in
   let '(r2, st2, calls2) := authenticate cfg net now0' now1' st1 in
   r2 = None /\ st2 = st /\ calls1 ++ calls2 = []).
Proof.
  intros Hs Hne H0 H0'.
  assert (E : forall n0 n1, (tokenExpiry st = None \/ exists e, tokenExpiry st = Some e /\ n0 < e) ->
                authenticate cfg net n0 n1 st = (None, st, [])).
  { intros n0 n1 Hv. unfold authenticate. rewrite (hasValidToken_true n0 st s Hs Hne Hv). reflexivity. }
  rewrite (E now0 now1 H0), (E now0' now1' H0'). split; [reflexivity | auto].
Qed.

Lemma authenticate_valid_noop_witness :
  let st := mkTokenService (Some "tok"%string) None (Some 10000) in
  accessToken st = Some "tok"%string /\ "tok"%string <> EmptyString /\
  authenticate cfg0 (fun _ => Rejected "unused"%string) 1000 1000 st = (None, st, []) /\
  (let '(_, st1, calls1) := authenticate cfg0 (fun _ => Rejected "unused"%string) 1000 1000 st in
   let '(r2, st2, calls2) := authenticate cfg0 (fun _ => Rejected "unused"%string) 2000 2000 st1 in
   r2 = None /\ st2 = st /\ calls1 ++ calls2 = []).
Proof.
  simpl. split; [reflexivity | split; [discriminate |]].
  apply (authenticate_valid_noop cfg0 (fun _ => Rejected "unused"%string) 1000 1000 2000 2000
           (mkTokenService (Some "tok"%string) None (Some 10000)) "tok"%string);
    [reflexivity | discriminate | right; exists 10000; split; [reflexivity | lia]
    | right; exists 10000; split; [reflexivity | lia]].
Defined.

(** C7: when [authenticate()] fetches (the token is not valid) and client
    credentials are configured, it sends exactly one request, with grant
    type [refresh_token] (carrying the held refresh token) when a refresh
    token is held and [client_credentials] otherwise; when that request
    succeeds, the new access token is stored, the refresh token is replaced
    only by one the response supplies, and the expiry becomes
    [now + expires_in * 1000] (seconds to milliseconds). *)
Lemma authenticate_fetch_grant_and_store (cfg : AuthConfig) (net : params -> outcome)
    (now0 now1 : Z) (st : TokenService) (cid csec : string) :
  hasValidToken now0 st = false ->
  clientId cfg = Some cid -> clientSecret cfg = Some csec ->
  cid <> EmptyString -> csec <> EmptyString ->
  let grant := if truthy_str (refreshToken st) then refresh_token else client_credentials in
  let '(e, st', calls) := authenticate cfg net now0 now1 st in
  exists p, calls = [p] /\ p_grant_type p = grant /\
    p_refresh_token p = (if truthy_str (refreshToken st) then refreshToken st else None) /\
    forall r, net p = Fulfilled r ->
      e = None /\
      st' = mkTokenService (access_token r)
              (match refresh_token_r r with Some x => Some x | None => refreshToken st end)
              (Some (now1 + expires_in r * 1000)).
Proof.
  intros Hv Hid Hsec Hcid Hcsec. simpl.
  unfold authenticate. rewrite Hv. unfold fetchToken, fetchToken_start.
  rewrite Hid, Hsec, (proj2 (String.eqb_neq _ _) Hcid), (proj2 (String.eqb_neq _ _) Hcsec). simpl.
  destruct (truthy_str (refreshToken st)) eqn:Hrt;
    destruct (net _) as [m | r0] eqn:Hn; simpl;
    (eexists; split; [reflexivity | split; [reflexivity | split; [reflexivity |]]]);
    intros r Hr; rewrite Hr in Hn; inversion Hn; subst; auto.
Qed.

Lemma authenticate_fetch_grant_and_store_witness :
  let st := mkTokenService (Some "old"%string) (Some "rt"%string) (Some 1000) in
  let net := fun _ : params => Fulfilled (mkResponse (Some "new"%string) None 3600) in
  hasValidToken 5000 st = false /\
  (let grant := if truthy_str (refreshToken st) then refresh_token else client_credentials in
   let '(e, st', calls) := authenticate cfg0 net 5000 6000 st in
   exists p, calls = [p] /\ p_grant_type p = grant /\
     p_refresh_token p = (if truthy_str (refreshToken st) then refreshToken st else None) /\
     forall r, net p = Fulfilled r ->
       e = None /\
       st' = mkTokenService (access_token r)
               (match refresh_token_r r with Some x => Some x | None => refreshToken st end)
               (Some (6000 + expires_in r * 1000))).
Proof.
  split; [reflexivity |].
  apply (authenticate_fetch_grant_and_store cfg0
           (fun _ : params => Fulfilled (mkResponse (Some "new"%string) None 3600)) 5000 6000
           (mkTokenService (Some "old"%string) (Some "rt"%string) (Some 1000))
           "id"%string "secret"%string);
    [reflexivity | reflexivity | reflexivity | discriminate | discriminate].
Defined.

(** C6 is false as stated: a 2xx response without [access_token] is not
    treated as a failure.  From an expired token with refresh token ["rt"],
    [authenticate()] resolves without throwing and keeps ["rt"]. *)
Lemma authenticate_missing_access_token_counterexample :
  let r := authenticate cfg0 no_access_token_net 5000 6000
             (mkTokenService (Some "old"%string) (Some "rt"%string) (Some 1000)) in
  fst (fst r) = None /\ refreshToken (snd (fst r)) = Some "rt"%string.
Proof. split; reflexivity. Qed.

(** C6 (as amended): when [authenticate()] fetches and the fetch throws
    (client credentials not configured, or the request rejected by a
    network error or a non-2xx status), all three fields are cleared, the
    promise rejects with an [Error] whose message is
    ["Authentication failed: "] followed by the cause's message, and from
    then on every [getAccessToken()] call throws [NotAuthenticatedError]
    until a token request succeeds with an access token.  A 2xx response
    without [access_token] is not such a failure: [authenticate()] resolves,
    the stored access token is absent, the refresh token is the response's
    if it has one and the old one otherwise, and the expiry is set as on
    success; [getAccessToken()] throws afterwards as well. *)
Lemma authenticate_failure_resets (cfg : AuthConfig) (net : params -> outcome)
    (now0 now1 : Z) (st : TokenService) :
  hasValidToken now0 st = false ->
  let '(e, st', calls) := authenticate cfg net now0 now1 st in
  (forall err, e = Some err ->
     st' = resetTokens /\
     (exists m, err = Error (AUTH_FAILED_PREFIX ++ m)) /\
     forall evs, forallb (fun ev => negb (restores_token ev)) evs = true ->
       Forall (fun r => r = inl NotAuthenticatedError) (fst (runTokenEvents cfg evs st'))) /\
  (truthy_str (clientId cfg) && truthy_str (clientSecret cfg) = false ->
     e = Some (Error (AUTH_FAILED_PREFIX ++ MSG_NO_CREDENTIALS)) /\ calls = []) /\
  (forall p m, calls = [p] -> net p = Rejected m ->
     e = Some (Error (AUTH_FAILED_PREFIX ++ m))) /\
  (forall p r, calls = [p] -> net p = Fulfilled r -> access_token r = None ->
     e = None /\
     st' = mkTokenService None
             (match refresh_token_r r with Some x => Some x | None => refreshToken st end)
             (Some (now1 + expires_in r * 1000)) /\
     forall evs, forallb (fun ev => negb (restores_token ev)) evs = true ->
       Forall (fun r => r = inl NotAuthenticatedError) (fst (runTokenEvents cfg evs st'))).
Proof.
  intros Hv. unfold authenticate. rewrite Hv. unfold fetchToken.
  set (g := if truthy_str (refreshToken st) then refresh_token else client_credentials).
  assert (Hcred : truthy_str (clientId cfg) && truthy_str (clientSecret cfg) = false ->
                  fetchToken_start cfg g st = inl MSG_NO_CREDENTIALS).
  { unfold fetchToken_start. destruct (clientId cfg) as [cid |], (clientSecret cfg) as [csec |];
      simpl; intros H; try reflexivity.
    destruct (String.eqb cid EmptyString), (String.eqb csec EmptyString); simpl in *;
      try reflexivity; discriminate. }
  destruct (fetchToken_start cfg g st) as [m | p] eqn:Hs.
  - simpl. split; [| split; [| split]].
    + intros err Herr. inversion Herr; subst. split; [reflexivity | split; [eauto |]].
      intros evs Hevs. apply tokenless_run_throws; [reflexivity | exact Hevs].
    + intros H. pose proof (Hcred H) as Hm. inversion Hm; subst. split; reflexivity.
    + intros p m' Hc. discriminate.
    + intros p r Hc. discriminate.
  - destruct (net p) as [m | r0] eqn:Hn; simpl; (split; [| split; [| split]]).
    + intros err Herr. inversion Herr; subst. split; [reflexivity | split; [eauto |]].
      intros evs Hevs. apply tokenless_run_throws; [reflexivity | exact Hevs].
    + intros H. discriminate (Hcred H).
    + intros p' m' Hc Hm. inversion Hc; subst. rewrite Hm in Hn. inversion Hn; subst. reflexivity.
    + intros p' r Hc Hr. inversion Hc; subst. rewrite Hr in Hn. discriminate.
    + intros err Herr. discriminate.
    + intros H. discriminate (Hcred H).
    + intros p' m' Hc Hm. inversion Hc; subst. rewrite Hm in Hn. discriminate.
    + intros p' r Hc Hr Ha. inversion Hc; subst. rewrite Hr in Hn. inversion Hn; subst.
      rewrite Ha. split; [reflexivity | split; [reflexivity |]].
      intros evs Hevs. apply tokenless_run_throws; [reflexivity | exact Hevs].
Qed.

Lemma authenticate_failure_resets_witness :
  let st := mkTokenService (Some "old"%string) (Some "rt"%string) (Some 1000) in
  let net := fun _ : params => Rejected "Request failed with status code 401"%string in
  hasValidToken 5000 st = false /\
  (let '(e, st', calls) := authenticate cfg0 net 5000 6000 st in
   (forall err, e = Some err ->
      st' = resetTokens /\
      (exists m, err = Error (AUTH_FAILED_PREFIX ++ m)) /\
      forall evs, forallb (fun ev => negb (restores_token ev)) evs = true ->
        Forall (fun r => r = inl NotAuthenticatedError) (fst (runTokenEvents cfg0 evs st'))) /\
   (truthy_str (clientId cfg0) && truthy_str (clientSecret cfg0) = false ->
      e = Some (Error (AUTH_FAILED_PREFIX ++ MSG_NO_CREDENTIALS)) /\ calls = []) /\
   (forall p m, calls = [p] -> net p = Rejected m ->
      e = Some (Error (AUTH_FAILED_PREFIX ++ m))) /\
   (forall p r, calls = [p] -> net p = Fulfilled r -> access_token r = None ->
      e = None /\
      st' = mkTokenService None
              (match refresh_token_r r with Some x => Some x | None => refreshToken st end)
              (Some (6000 + expires_in r * 1000)) /\
      forall evs, forallb (fun ev => negb (restores_token ev)) evs = true ->
        Forall (fun r => r = inl NotAuthenticatedError) (fst (runTokenEvents cfg0 evs st')))).
Proof.
  split; [reflexivity |].
  apply (authenticate_failure_resets cfg0
           (fun _ : params => Rejected "Request failed with status code 401"%string) 5000 6000
           (mkTokenService (Some "old"%string) (Some "rt"%string) (Some 1000))).
  reflexivity.
Defined.

(** C10: [getAccessToken()] on a seeded token ["tok"] that expires in one
    minute, with no refresh token held: the background refresh throws
    before its request is sent, its [catch] block clears the state
    synchronously, and [getAccessToken()] then returns [null] (the cleared
    field) instead of the held token ["tok"]. *)
Lemma getAccessToken_returns_null_without_refresh_token :
  getAccessToken cfg0 0 (mkTokenService (Some "tok"%string) None (Some 60000))
    = (inr None, resetTokens, None).
Proof. reflexivity. Qed.

End TokenFacts.

(** * Request metrics: properties *)
Module MetricsFacts.
Import Metrics.

Lemma cat_eqb_spec a b : cat_eqb a b = true <-> a = b.
Proof. destruct a, b; simpl; split; congruence. Qed.







Section SortFacts.
Context {A : Type} (le : A -> A -> bool).

Lemma sort_insert_In (x y : A) (l : list A) : In y (sort_insert le x l) <-> x = y \/ In y l.
Proof.
  induction l as [| z l IH]; simpl; [tauto |].
  destruct (le x z); simpl; [tauto |]. rewrite IH. tauto.
Qed.

Lemma js_sort_In (y : A) (l : list A) : In y (js_sort le l) <-> In y l.
Proof.
  induction l as [| x l IH]; simpl; [tauto |]. rewrite sort_insert_In, IH. tauto.
Qed.
End SortFacts.

Lemma sort_insert_longest_head (x : string) (l : list string) :
  longest_head l -> longest_head (sort_insert longer_first x l).
Proof.
  destruct l as [| y l']; simpl.
  - intros _ z [<- | []]. lia.
  - intros H. unfold longer_first. destruct (Nat.leb (String.length y) (String.length x)) eqn:E.
    + apply Nat.leb_le in E. simpl. intros z [<- | Hz]; [lia |].
      specialize (H z Hz). lia.
    + apply Nat.leb_gt in E. simpl. intros z [<- | Hz]; [lia |].
      apply sort_insert_In in Hz. destruct Hz as [-> | Hz]; [lia |]. apply H. right. exact Hz.
Qed.

Lemma js_sort_longest_head (l : list string) : longest_head (js_sort longer_first l).
Proof.
  induction l as [| x l IH]; simpl; [exact I |]. apply sort_insert_longest_head, IH.
Qed.

(** Two prefixes of one string with the same length are equal. *)
Lemma prefix_same_length (a b s : string) :
  String.prefix a s = true -> String.prefix b s = true ->
  String.length a = String.length b -> a = b.
Proof.
  revert b s. induction a as [| ca a IH]; intros b s Ha Hb Hl.
  - destruct b; [reflexivity | discriminate].
  - destruct b as [| cb b]; [discriminate |]. destruct s as [| cs s]; [discriminate |].
    simpl in Ha, Hb, Hl.
    destruct (Ascii.ascii_dec ca cs) as [-> |]; [| discriminate].
    destruct (Ascii.ascii_dec cb cs) as [-> |]; [| discriminate].
    f_equal. apply (IH b s); auto.
Qed.

Lemma categoryMapping_keys_nonempty (k : string) :
  In k (map fst categoryMapping) -> k <> EmptyString.
Proof. simpl. intros H. repeat destruct H as [<- | H]; try discriminate. destruct H. Qed.

Lemma categoryMapping_lookup_In (k : string) :
  In k (map fst categoryMapping) -> In (k, mapping_lookup k categoryMapping) categoryMapping.
Proof. simpl. intros H. repeat destruct H as [<- | H]; try (simpl; tauto). Qed.

(** C5: every endpoint resolves to one category: when some prefix of the
    table matches, the category of the longest matching prefix (which is
    unique, whatever the table order), and [other] when none matches;
    ["/people/abc"] resolves to [profile] and ["/search/people"] to
    [search]. *)
Lemma getCategoryFromEndpoint_longest_prefix (endpoint : string) :
  ((exists k c, In (k, c) categoryMapping /\ String.prefix k endpoint = true /\
      getCategoryFromEndpoint endpoint = c /\
      forall k', In k' (map fst categoryMapping) -> String.prefix k' endpoint = true ->
        (String.length k' <= String.length k)%nat /\
        (String.length k' = String.length k -> k' = k))
   \/ ((forall k, In k (map fst categoryMapping) -> String.prefix k endpoint = false) /\
       getCategoryFromEndpoint endpoint = other))
  /\ getCategoryFromEndpoint "/people/abc"%string = profile
  /\ getCategoryFromEndpoint "/search/people"%string = search.
Proof.
  split; [| split; reflexivity].
  unfold getCategoryFromEndpoint.
  pose proof (js_sort_longest_head
                (filter (fun prefix => String.prefix prefix endpoint) (map fst categoryMapping))) as Hh.
  assert (Hin : forall z, In z (js_sort longer_first
                  (filter (fun prefix => String.prefix prefix endpoint) (map fst categoryMapping)))
                <-> In z (map fst categoryMapping) /\ String.prefix z endpoint = true).
  { intros z. rewrite js_sort_In, filter_In. tauto. }
  destruct (js_sort longer_first _) as [| h t] eqn:Hs.
  - right. split; [| reflexivity].
    intros k Hk. destruct (String.prefix k endpoint) eqn:Hp; [| reflexivity].
    exfalso. apply (proj2 (Hin k)). tauto.
  - left. destruct (proj1 (Hin h) (or_introl eq_refl)) as [Hk Hp].
    rewrite (proj2 (String.eqb_neq _ _) (categoryMapping_keys_nonempty h Hk)).
    exists h, (mapping_lookup h categoryMapping).
    split; [apply categoryMapping_lookup_In, Hk |]. split; [exact Hp |]. split; [reflexivity |].
    intros k' Hk' Hp'. assert (Hz : In k' (h :: t)) by (apply Hin; tauto).
    split; [apply Hh, Hz |]. intros Hl. apply (prefix_same_length k' h endpoint Hp' Hp Hl).
Qed.

(** ** Per-category bookkeeping of [recordRequest] *)

Lemma recordRequest_responseTimes now e t m c :
  responseTimes (recordRequest now e t m) c =
    if cat_eqb c (getCategoryFromEndpoint e) then fifo_push (responseTimes m c) t
    else responseTimes m c.
Proof.
  unfold recordRequest, upd, fifo_push. simpl.
  destruct (cat_eqb c (getCategoryFromEndpoint e)) eqn:E; [| reflexivity].
  apply cat_eqb_spec in E. subst. reflexivity.
Qed.

Lemma recordRequest_requestCounts now e t m c :
  requestCounts (recordRequest now e t m) c =
    if cat_eqb c (getCategoryFromEndpoint e) then requestCounts m c + 1 else requestCounts m c.
Proof.
  unfold recordRequest, upd. simpl.
  destruct (cat_eqb c (getCategoryFromEndpoint e)) eqn:E; [| reflexivity].
  apply cat_eqb_spec in E. subst. reflexivity.
Qed.

Lemma recordRequest_lastRequestTimestamps now e t m c :
  lastRequestTimestamps (recordRequest now e t m) c =
    if cat_eqb c (getCategoryFromEndpoint e) then Some now else lastRequestTimestamps m c.
Proof. reflexivity. Qed.

Lemma cat_eqb_sym a b : cat_eqb a b = cat_eqb b a.
Proof. destruct a, b; reflexivity. Qed.

Lemma events_of_cons c ev tr :
  events_of c (ev :: tr) =
    if cat_eqb c (getCategoryFromEndpoint (ev_endpoint ev)) then ev :: events_of c tr
    else events_of c tr.
Proof. unfold events_of. simpl. rewrite cat_eqb_sym. reflexivity. Qed.

Lemma tl_skipn {A} (k : nat) (l : list A) : tl (skipn k l) = skipn (S k) l.
Proof.
  revert l. induction k as [| k IH]; intros [| y l]; try reflexivity. apply IH.
Qed.

(** Pushing onto the window of the last 100 samples gives the window of the
    extended sequence. *)
Lemma fifo_push_lastn (l : list Q) (x : Q) :
  fifo_push (lastn 100 l) x = lastn 100 (l ++ [x]).
Proof.
  unfold fifo_push, lastn, DEFAULT_HISTORY_SIZE.
  assert (Happ : forall k, (k <= length l)%nat -> skipn k (l ++ [x]) = skipn k l ++ [x]).
  { intros k Hk. rewrite skipn_app. replace (k - length l)%nat with 0%nat by lia. reflexivity. }
  assert (Hlen : length (skipn (length l - 100) l ++ [x]) = (length l - (length l - 100) + 1)%nat).
  { rewrite length_app, length_skipn. reflexivity. }
  rewrite Hlen, length_app. simpl (length [x]).
  destruct (Nat.ltb 100 (length l - (length l - 100) + 1)) eqn:E.
  - apply Nat.ltb_lt in E.
    replace (length l + 1 - 100)%nat with (S (length l - 100)) by lia.
    rewrite <- tl_skipn, Happ by lia. reflexivity.
  - apply Nat.ltb_ge in E.
    replace (length l + 1 - 100)%nat with (length l - 100)%nat by lia.
    rewrite Happ by lia. reflexivity.
Qed.

Lemma lastn_short (l : list Q) : (length l <= 100)%nat -> lastn 100 l = l.
Proof. intros H. unfold lastn. replace (length l - 100)%nat with 0%nat by lia. reflexivity. Qed.

Lemma length_lastn (l : list Q) : (length (lastn 100 l) <= 100)%nat.
Proof. unfold lastn. rewrite length_skipn. lia. Qed.

(** The history of [c] after a run is the window of the last 100 samples
    of a sequence whose window it held before, followed by what the run
    recorded into [c]. *)
Lemma runRecords_responseTimes (tr : list event) (m : MetricsService) (c : MetricCategory)
    (hist : list Q) :
  responseTimes m c = lastn 100 hist ->
  responseTimes (runRecords tr m) c = lastn 100 (hist ++ samples c tr).
Proof.
  revert m hist. induction tr as [| ev tr IH]; intros m hist Hm.
  - simpl. rewrite app_nil_r. exact Hm.
  - unfold runRecords. simpl fold_left.
    fold (runRecords tr (recordRequest (ev_now ev) (ev_endpoint ev) (ev_time ev) m)).
    unfold samples. rewrite events_of_cons.
    destruct (cat_eqb c (getCategoryFromEndpoint (ev_endpoint ev))) eqn:E.
    + rewrite (IH _ (hist ++ [ev_time ev])).
      * simpl map. rewrite <- app_assoc. reflexivity.
      * rewrite recordRequest_responseTimes, E, Hm. apply fifo_push_lastn.
    + apply IH. rewrite recordRequest_responseTimes, E. exact Hm.
Qed.

Lemma runRecords_requestCounts (tr : list event) (m : MetricsService) (c : MetricCategory) :
  requestCounts (runRecords tr m) c = requestCounts m c + Z.of_nat (length (events_of c tr)).
Proof.
  revert m. induction tr as [| ev tr IH]; intros m.
  - simpl. lia.
  - unfold runRecords. simpl fold_left. fold (runRecords tr (recordRequest (ev_now ev) (ev_endpoint ev) (ev_time ev) m)).
    rewrite IH, recordRequest_requestCounts, events_of_cons.
    destruct (cat_eqb c (getCategoryFromEndpoint (ev_endpoint ev))); simpl length; lia.
Qed.

Lemma last_cons_default {A} (a : A) (l : list A) (d : A) : last (a :: l) d = last l a.
Proof.
  revert a d. induction l as [| b l IH]; intros a d; [reflexivity |].
  change (last (b :: l) d = last (b :: l) a). rewrite (IH b d), (IH b a). reflexivity.
Qed.

Lemma runRecords_lastRequestTimestamps (tr : list event) (m : MetricsService) (c : MetricCategory) :
  lastRequestTimestamps (runRecords tr m) c =
    last (map (fun ev => Some (ev_now ev)) (events_of c tr)) (lastRequestTimestamps m c).
Proof.
  revert m. induction tr as [| ev tr IH]; intros m.
  - reflexivity.
  - unfold runRecords. simpl fold_left. fold (runRecords tr (recordRequest (ev_now ev) (ev_endpoint ev) (ev_time ev) m)).
    rewrite IH, recordRequest_lastRequestTimestamps, events_of_cons.
    destruct (cat_eqb c (getCategoryFromEndpoint (ev_endpoint ev))); [| reflexivity].
    simpl map. rewrite last_cons_default. reflexivity.
Qed.

Lemma run_from_init_responseTimes (tr : list event) (c : MetricCategory) :
  responseTimes (runRecords tr initMetrics) c = lastn 100 (samples c tr).
Proof. apply (runRecords_responseTimes tr initMetrics c []). reflexivity. Qed.

(** C4: along any sequence of [recordRequest] calls from the initial state,
    the history of each category holds at most 100 samples, and exactly the
    last (at most) 100 samples recorded into it, oldest first; recording the
    150 samples 1..150 into [job] leaves 51..150. *)
Lemma responseTimes_bounded_fifo (tr : list event) (c : MetricCategory) :
  (length (responseTimes (runRecords tr initMetrics) c) <= 100)%nat /\
  responseTimes (runRecords tr initMetrics) c = lastn 100 (samples c tr) /\
  responseTimes (runRecords jobs_150 initMetrics) job
    = map (fun i => inject_Z (Z.of_nat i)) (seq 51 100).
Proof.
  rewrite run_from_init_responseTimes.
  split; [apply length_lastn | split; [reflexivity |]].
  vm_compute. reflexivity.
Qed.

(** C8: after [resetMetrics()] every counter is 0, every timestamp absent
    and every history empty, and [getDetailedMetrics()] reports zero counts,
    absent timestamps (and zero statistics) overall and for every
    category. *)
Lemma resetMetrics_clears (m : MetricsService) :
  let m' := resetMetrics m in
  (forall c, requestCounts m' c = 0 /\ lastRequestTimestamps m' c = None /\ responseTimes m' c = []) /\
  overall (getDetailedMetrics m') = zeroMetricData 0 None /\
  (forall c, byCategory (getDetailedMetrics m') c = zeroMetricData 0 None).
Proof.
  split; [intros c; repeat split |].
  split; [reflexivity |]. intros c. reflexivity.
Qed.

(** C9: after any sequence of [recordRequest] calls from the initial state,
    [getMetricsForCategory(c)] reports as [requestCount] the number of all
    requests ever recorded into [c] (not bounded by the window) and as
    [lastRequestTimestamp] the time of the most recent one; with an empty
    history every other field is zero, and otherwise the average is the
    rounded mean of the retained samples and min and max are the ends of
    their sorted copy. *)
Lemma getMetricsForCategory_all_time (tr : list event) (c : MetricCategory) :
  let m := runRecords tr initMetrics in
  let md := getMetricsForCategory m c in
  let h := lastn 100 (samples c tr) in
  requestCount md = Z.of_nat (length (events_of c tr)) /\
  lastRequestTimestamp md
    = option_map Fin (last (map (fun ev => Some (ev_now ev)) (events_of c tr)) None) /\
  match h with
  | [] => md = zeroMetricData (requestCount md) (lastRequestTimestamp md)
  | _ :: _ =>
      averageResponseTime md = js_round (sumQ h / inject_Z (Z.of_nat (length h)))%Q /\
      minResponseTime md = nth 0 (js_sort numeric_le h) 0%Q /\
      maxResponseTime md = last (js_sort numeric_le h) 0%Q
  end.
Proof.
  intros m md h.
  assert (Hc : requestCount md = Z.of_nat (length (events_of c tr))).
  { unfold md, getMetricsForCategory. destruct (responseTimes m c); simpl;
      unfold m; rewrite runRecords_requestCounts; reflexivity. }
  assert (Ht : lastRequestTimestamp md
               = option_map Fin (last (map (fun ev => Some (ev_now ev)) (events_of c tr)) None)).
  { unfold md, getMetricsForCategory. destruct (responseTimes m c); simpl;
      unfold m; rewrite runRecords_lastRequestTimestamps; reflexivity. }
  split; [exact Hc | split; [exact Ht |]].
  assert (Hh : responseTimes m c = h) by apply run_from_init_responseTimes.
  unfold md, getMetricsForCategory. rewrite Hh.
  destruct h as [| x h']; [reflexivity |].
  split; [reflexivity | split; reflexivity].
Qed.

End MetricsFacts.

(** * Further properties of the token service *)
Module TokenExtra.
Import Token.

Lemma authenticate_error_reset cfg net now0 now1 st err :
  fst (fst (authenticate cfg net now0 now1 st)) = Some err ->
  snd (fst (authenticate cfg net now0 now1 st)) = resetTokens.
Proof.
  unfold authenticate. destruct (hasValidToken now0 st); [discriminate |].
  unfold fetchToken. destruct (fetchToken_start _ _ _) as [m | p]; [reflexivity |].
  destruct (net p); simpl; [reflexivity | discriminate].
Qed.

(** A failed [authenticate()] loses the refresh token: whatever the next
    [authenticate()] sends to the token endpoint uses the
    [client_credentials] grant, without a refresh token. *)
Lemma authenticate_failure_then_client_credentials (cfg : AuthConfig) (net : params -> outcome)
    (now0 now1 : Z) (st : TokenService) :
  fst (fst (authenticate cfg net now0 now1 st)) <> None ->
  forall (net' : params -> outcome) (now0' now1' : Z) (p : params),
    In p (snd (authenticate cfg net' now0' now1' (snd (fst (authenticate cfg net now0 now1 st))))) ->
    p_grant_type p = client_credentials /\ p_refresh_token p = None.
Proof.
  intros Hfail net' now0' now1' p Hp.
  destruct (fst (fst (authenticate cfg net now0 now1 st))) as [err |] eqn:He; [| congruence].
  rewrite (authenticate_error_reset cfg net now0 now1 st err He) in Hp.
  unfold authenticate, fetchToken, fetchToken_start in Hp. simpl in Hp.
  destruct (clientId cfg) as [cid |], (clientSecret cfg) as [csec |]; simpl in Hp; try contradiction.
  destruct (String.eqb cid EmptyString || String.eqb csec EmptyString); simpl in Hp; [contradiction |].
  destruct (net' _); simpl in Hp; destruct Hp as [<- | []]; auto.
Qed.

Lemma authenticate_failure_then_client_credentials_witness :
  fst (fst (authenticate cfg0 (fun _ => Rejected "Network Error"%string) 5000 6000
              (mkTokenService (Some "old"%string) (Some "rt"%string) (Some 1000)))) <> None /\
  (forall (net' : params -> outcome) (now0' now1' : Z) (p : params),
    In p (snd (authenticate cfg0 net' now0' now1'
                 (snd (fst (authenticate cfg0 (fun _ => Rejected "Network Error"%string) 5000 6000
                              (mkTokenService (Some "old"%string) (Some "rt"%string) (Some 1000))))))) ->
    p_grant_type p = client_credentials /\ p_refresh_token p = None).
Proof.
  split; [discriminate |].
  apply (authenticate_failure_then_client_credentials cfg0 (fun _ => Rejected "Network Error"%string)
           5000 6000 (mkTokenService (Some "old"%string) (Some "rt"%string) (Some 1000))).
  discriminate.
Defined.

(** When [getAccessToken()] returns without starting a refresh and without
    touching the state, the token it returns is valid at that time: an
    expired token always makes it attempt a refresh. *)
Lemma getAccessToken_quiet_means_valid (cfg : AuthConfig) (now : Z) (st : TokenService)
    (v : option string) :
  getAccessToken cfg now st = (inr v, st, None) -> hasValidToken now st = true.
Proof.
  unfold getAccessToken, hasValidToken.
  destruct (truthy_str (accessToken st)) eqn:Ht; simpl; [| discriminate].
  destruct (isTokenExpiringSoon now st) eqn:Hs.
  - destruct (fetchToken_start cfg refresh_token st); intros H; inversion H; subst.
    + simpl in Ht. discriminate.
  - intros _. unfold isTokenExpiringSoon, EXPIRY_THRESHOLD in Hs.
    destruct (tokenExpiry st) as [e |]; [| reflexivity].
    destruct (e =? 0); [reflexivity |].
    apply Z.ltb_ge in Hs. apply Z.ltb_lt. lia.
Qed.

Lemma getAccessToken_quiet_means_valid_witness :
  getAccessToken cfg0 0 (mkTokenService (Some "tok"%string) None (Some 3600000))
    = (inr (Some "tok"%string), mkTokenService (Some "tok"%string) None (Some 3600000), None) /\
  hasValidToken 0 (mkTokenService (Some "tok"%string) None (Some 3600000)) = true.
Proof.
  split; [reflexivity |].
  apply (getAccessToken_quiet_means_valid cfg0 0 _ (Some "tok"%string)). reflexivity.
Defined.

(** Two background refreshes that both succeed: the later one's access
    token and expiry win; the refresh token is the later one's if its
    response has one, else the earlier one's, else the original. *)
Lemma background_refreshes_last_writer_wins (t1 t2 : Z) (r1 r2 : response) (st : TokenService) :
  backgroundSettle t2 (Fulfilled r2) (backgroundSettle t1 (Fulfilled r1) st) =
    mkTokenService (access_token r2)
      (match refresh_token_r r2, refresh_token_r r1 with
       | Some x, _ => Some x
       | None, Some y => Some y
       | None, None => refreshToken st
       end)
      (Some (t2 + expires_in r2 * 1000)).
Proof.
  unfold backgroundSettle. simpl.
  destruct (refresh_token_r r2), (refresh_token_r r1); reflexivity.
Qed.

End TokenExtra.

(** * Properties of [makeRequest] *)
Module ClientExtra.
Import Token Metrics Client.

(** [makeRequest] records the request in the metrics exactly when it
    succeeds, under the category of its resource path and with the elapsed
    time [end - start]; a token error or a rejected API call leaves the
    metrics untouched. *)
Lemma makeRequest_records_only_success {T} (cfg : AuthConfig) (net : params -> outcome)
    (api : string -> option string -> api_outcome T) (clk : clock) (path : string)
    (st : TokenService) (m : MetricsService) :
  let '(r, _, m', _, _) := makeRequest cfg net api clk path st m in
  match r with
  | inl _ => m' = m
  | inr _ => m' = recordRequest (t_record clk) path (inject_Z (t_end clk - t_start clk)) m
  end.
Proof.
  unfold makeRequest.
  destruct (authenticate cfg net (t_check clk) (t_fetch clk) st) as [[e st1] calls].
  destruct e as [err |]; [reflexivity |].
  destruct (getAccessToken cfg (t_access clk) st1) as [[r st2] bg].
  destruct r as [err | tok]; [reflexivity |].
  destruct (api path tok); reflexivity.
Qed.

(** With a token that is valid and not about to expire, [makeRequest]
    sends nothing to the token endpoint, starts no background refresh,
    leaves the token state alone and calls the API with the held token. *)
Lemma makeRequest_fresh_token {T} (cfg : AuthConfig) (net : params -> outcome)
    (api : string -> option string -> api_outcome T) (clk : clock) (path : string)
    (st : TokenService) (m : MetricsService) :
  hasValidToken (t_check clk) st = true ->
  isTokenExpiringSoon (t_access clk) st = false ->
  let '(r, st', _, calls, bg) := makeRequest cfg net api clk path st m in
  calls = [] /\ bg = None /\ st' = st /\
  r = match api path (accessToken st) with
      | ApiRejected msg => inl (ApiError msg)
      | ApiFulfilled d => inr d
      end.
Proof.
  intros Hv Hs. unfold makeRequest, authenticate. rewrite Hv.
  unfold getAccessToken. rewrite Hs.
  unfold hasValidToken in Hv. apply andb_prop in Hv. destruct Hv as [Ht _]. rewrite Ht. simpl.
  destruct (api path (accessToken st)); auto.
Qed.

Lemma makeRequest_fresh_token_witness :
  let st := mkTokenService (Some "tok"%string) None (Some 3600000) in
  let clk := mkClock 0 0 0 0 120 120 in
  hasValidToken (t_check clk) st = true /\ isTokenExpiringSoon (t_access clk) st = false /\
  (let '(r, st', _, calls, bg) :=
     makeRequest cfg0 (fun _ => Rejected "unused"%string)
       (fun _ tok => ApiFulfilled tok) clk "/me"%string st initMetrics in
   calls = [] /\ bg = None /\ st' = st /\
   r = match (fun (_ : string) (tok : option string) => ApiFulfilled tok) "/me"%string (accessToken st) with
       | ApiRejected msg => inl (ApiError msg)
       | ApiFulfilled d => inr d
       end).
Proof.
  split; [reflexivity | split; [reflexivity |]].
  apply (makeRequest_fresh_token cfg0 (fun _ => Rejected "unused"%string)
           (fun _ tok => ApiFulfilled tok) (mkClock 0 0 0 0 120 120) "/me"%string
           (mkTokenService (Some "tok"%string) None (Some 3600000)) initMetrics);
    reflexivity.
Defined.

End ClientExtra.

(** * Further properties of the metrics service *)
Module MetricsExtra.
Import Metrics MetricsFacts Client.

(** ** The numeric sort and the ends of its result *)

Lemma sort_insert_sorted (x : Q) (l : list Q) :
  StronglySorted Qle l -> StronglySorted Qle (sort_insert numeric_le x l).
Proof.
  induction l as [| y l IH]; intros Hs; simpl.
  - repeat constructor.
  - apply StronglySorted_inv in Hs. destruct Hs as [Hl Hy].
    unfold numeric_le. destruct (Qle_bool x y) eqn:E.
    + apply Qle_bool_iff in E. constructor; [constructor; assumption |].
      constructor; [exact E |]. rewrite Forall_forall in *.
      intros z Hz. apply Qle_trans with y; auto.
    + assert (Hyx : (y <= x)%Q).
      { apply Qlt_le_weak, Qnot_le_lt. intros H. apply Qle_bool_iff in H. congruence. }
      constructor; [apply IH; exact Hl |].
      rewrite Forall_forall in *. intros z Hz.
      apply sort_insert_In in Hz. destruct Hz as [<- | Hz]; auto.
Qed.

Lemma js_sort_sorted (l : list Q) : StronglySorted Qle (js_sort numeric_le l).
Proof.
  induction l as [| x l IH]; simpl; [constructor |]. apply sort_insert_sorted, IH.
Qed.

Lemma last_In_nonempty {A} (l : list A) (d : A) : l <> [] -> In (last l d) l.
Proof.
  induction l as [| a l IH]; intros H; [congruence |].
  destruct l as [| b l]; [left; reflexivity |].
  right. apply IH. discriminate.
Qed.

Lemma sorted_head_least (s : list Q) (x : Q) :
  StronglySorted Qle s -> In x s -> (nth 0 s 0%Q <= x)%Q.
Proof.
  intros Hs Hx. destruct s as [| h t]; [contradiction |].
  apply StronglySorted_inv in Hs. destruct Hs as [_ Hh]. simpl.
  destruct Hx as [<- | Hx]; [apply Qle_refl |]. rewrite Forall_forall in Hh. auto.
Qed.

Lemma sorted_last_greatest (s : list Q) (x : Q) :
  StronglySorted Qle s -> In x s -> (x <= last s 0%Q)%Q.
Proof.
  induction s as [| a s IH]; intros Hs Hx; [contradiction |].
  apply StronglySorted_inv in Hs. destruct Hs as [Hs Ha].
  destruct s as [| b s].
  - destruct Hx as [<- | []]. apply Qle_refl.
  - change (last (a :: b :: s) 0%Q) with (last (b :: s) 0%Q).
    destruct Hx as [<- | Hx]; [| apply IH; assumption].
    rewrite Forall_forall in Ha. apply Ha, last_In_nonempty. discriminate.
Qed.

Lemma sorted_ends (l : list Q) :
  l <> [] ->
  In (nth 0 (js_sort numeric_le l) 0%Q) l /\ In (last (js_sort numeric_le l) 0%Q) l /\
  forall x, In x l ->
    (nth 0 (js_sort numeric_le l) 0%Q <= x <= last (js_sort numeric_le l) 0%Q)%Q.
Proof.
  intros Hne.
  assert (Hsne : js_sort numeric_le l <> []).
  { intros H. destruct l as [| a l]; [congruence |].
    assert (Ha : In a (js_sort numeric_le (a :: l))) by (apply js_sort_In; left; reflexivity).
    rewrite H in Ha. contradiction. }
  split; [| split].
  - apply (js_sort_In numeric_le). destruct (js_sort numeric_le l); [congruence | left; reflexivity].
  - apply (js_sort_In numeric_le), last_In_nonempty, Hsne.
  - intros x Hx. apply (js_sort_In numeric_le) in Hx.
    split; [apply sorted_head_least | apply sorted_last_greatest]; auto using js_sort_sorted.
Qed.

(** [getMetricsForCategory(c)]: with at least one retained sample, the
    reported minimum and maximum are retained samples, and every retained
    sample lies between them. *)
Lemma getMetricsForCategory_min_max (m : MetricsService) (c : MetricCategory) :
  responseTimes m c <> [] ->
  In (minResponseTime (getMetricsForCategory m c)) (responseTimes m c) /\
  In (maxResponseTime (getMetricsForCategory m c)) (responseTimes m c) /\
  forall x, In x (responseTimes m c) ->
    (minResponseTime (getMetricsForCategory m c) <= x
     <= maxResponseTime (getMetricsForCategory m c))%Q.
Proof.
  intros Hne. unfold getMetricsForCategory.
  destruct (responseTimes m c) as [| a l] eqn:E; [congruence |].
  exact (sorted_ends (a :: l) Hne).
Qed.

Lemma getMetricsForCategory_min_max_witness :
  let m := runRecords [mkEvent 1 "/jobs" 30; mkEvent 2 "/jobs" 10; mkEvent 3 "/jobs" 20]%string
             initMetrics in
  responseTimes m job <> [] /\
  In (minResponseTime (getMetricsForCategory m job)) (responseTimes m job) /\
  In (maxResponseTime (getMetricsForCategory m job)) (responseTimes m job) /\
  forall x, In x (responseTimes m job) ->
    (minResponseTime (getMetricsForCategory m job) <= x
     <= maxResponseTime (getMetricsForCategory m job))%Q.
Proof.
  split; [vm_compute; discriminate |].
  apply getMetricsForCategory_min_max. vm_compute. discriminate.
Defined.

Lemma in_allTimes (m : MetricsService) (y : Q) :
  In y (flat_map (responseTimes m) allCategories) <-> exists c, In y (responseTimes m c).
Proof.
  rewrite in_flat_map. split; intros [c Hc].
  - exists c. apply Hc.
  - exists c. split; [destruct c; simpl; tauto | exact Hc].
Qed.

(** [getDetailedMetrics().overall]: every sample retained in any category
    lies between the overall minimum and maximum, and both are samples
    retained in some category. *)
Lemma getDetailedMetrics_overall_min_max (m : MetricsService) (c : MetricCategory) (x : Q) :
  In x (responseTimes m c) ->
  (minResponseTime (overall (getDetailedMetrics m)) <= x
   <= maxResponseTime (overall (getDetailedMetrics m)))%Q /\
  (exists c1, In (minResponseTime (overall (getDetailedMetrics m))) (responseTimes m c1)) /\
  (exists c2, In (maxResponseTime (overall (getDetailedMetrics m))) (responseTimes m c2)).
Proof.
  intros Hx.
  assert (Hall : In x (flat_map (responseTimes m) allCategories)) by (apply in_allTimes; eauto).
  unfold getDetailedMetrics. cbv beta zeta.
  remember (flat_map (responseTimes m) allCategories) as all eqn:E.
  destruct all as [| a l]; [contradiction |].
  destruct (sorted_ends (a :: l) ltac:(discriminate)) as [H1 [H2 H3]].
  assert (Hc : forall y, In y (a :: l) -> exists c, In y (responseTimes m c)).
  { intros y Hy. apply in_allTimes. rewrite <- E. exact Hy. }
  split; [exact (H3 x Hall) | split; [exact (Hc _ H1) | exact (Hc _ H2)]].
Qed.

Lemma getDetailedMetrics_overall_min_max_witness :
  let m := runRecords [mkEvent 1 "/jobs" 30; mkEvent 2 "/me" 10; mkEvent 3 "/auth/x" 20]%string
             initMetrics in
  In 30%Q (responseTimes m job) /\
  ((minResponseTime (overall (getDetailedMetrics m)) <= 30
    <= maxResponseTime (overall (getDetailedMetrics m)))%Q /\
   (exists c1, In (minResponseTime (overall (getDetailedMetrics m))) (responseTimes m c1)) /\
   (exists c2, In (maxResponseTime (overall (getDetailedMetrics m))) (responseTimes m c2))).
Proof.
  split; [vm_compute; left; reflexivity |].
  apply (getDetailedMetrics_overall_min_max _ job). vm_compute. left. reflexivity.
Defined.

(** ** The overall request count *)

Lemma overall_requestCount (m : MetricsService) :
  requestCount (overall (getDetailedMetrics m)) =
    requestCounts m search + requestCounts m profile + requestCounts m job +
    requestCounts m message + requestCounts m connection + requestCounts m auth +
    requestCounts m other.
Proof.
  unfold getDetailedMetrics. cbv beta zeta.
  destruct (flat_map (responseTimes m) allCategories); simpl; lia.
Qed.

(** [getBasicMetrics().requestCount]: every [recordRequest] call adds
    exactly one to the overall count, whatever its endpoint and however
    full the histories are. *)
Lemma getBasicMetrics_requestCount_run (tr : list event) (m : MetricsService) :
  cm_requestCount (getBasicMetrics (runRecords tr m)) =
    cm_requestCount (getBasicMetrics m) + Z.of_nat (length tr).
Proof.
  unfold getBasicMetrics. cbv beta zeta. cbn [cm_requestCount].
  revert m. induction tr as [| ev tr IH]; intros m.
  - simpl. lia.
  - unfold runRecords. simpl fold_left.
    fold (runRecords tr (recordRequest (ev_now ev) (ev_endpoint ev) (ev_time ev) m)).
    rewrite IH, !overall_requestCount, !recordRequest_requestCounts.
    simpl length. destruct (getCategoryFromEndpoint (ev_endpoint ev)); simpl; lia.
Qed.

(** From the initial state, each category retains [min(100, requestCount)]
    samples: its history is full exactly when it has seen 100 requests or
    more. *)
Lemma history_length_requestCount (tr : list event) (c : MetricCategory) :
  length (responseTimes (runRecords tr initMetrics) c) =
    Nat.min DEFAULT_HISTORY_SIZE (Z.to_nat (requestCounts (runRecords tr initMetrics) c)).
Proof.
  rewrite run_from_init_responseTimes, runRecords_requestCounts.
  unfold lastn, samples. rewrite length_skipn, length_map. simpl requestCounts.
  rewrite Z.add_0_l, Nat2Z.id. unfold DEFAULT_HISTORY_SIZE. lia.
Qed.

(** ** The overall last-request timestamp *)

Lemma js_max_from (l : list Z) (a : Z) :
  exists z,
    fold_left (fun acc z => match acc with NegInfinity => Fin z | Fin a => Fin (Z.max a z) end)
      l (Fin a) = Fin z /\
    (z = a \/ In z l) /\ a <= z /\ forall y, In y l -> y <= z.
Proof.
  revert a. induction l as [| b l IH]; intros a.
  - exists a. simpl. repeat split; [left; reflexivity | lia | intros y []].
  - simpl. destruct (IH (Z.max a b)) as [z [Hz [Hin [Hle Hall]]]].
    exists z. split; [exact Hz |]. split; [| split].
    + destruct Hin as [Hin | Hin]; [| right; right; exact Hin].
      destruct (Z.max_spec a b) as [[_ Hm] | [_ Hm]]; rewrite Hm in Hin;
        [right; left; symmetry; exact Hin | left; exact Hin].
    + lia.
    + intros y [<- | Hy]; [lia | auto].
Qed.

Lemma js_max_spec (l : list Z) :
  l <> [] -> exists z, js_max l = Fin z /\ In z l /\ forall y, In y l -> y <= z.
Proof.
  destruct l as [| b l]; [congruence |]. intros _. unfold js_max. simpl.
  destruct (js_max_from l b) as [z [Hz [Hin [Hle Hall]]]].
  exists z. split; [exact Hz | split].
  - destruct Hin as [<- | Hin]; [left; reflexivity | right; exact Hin].
  - intros y [<- | Hy]; auto.
Qed.

Lemma filter_some_In (l : list (option Z)) (z : Z) : In z (filter_some l) <-> In (Some z) l.
Proof.
  induction l as [| [a |] l IH]; simpl; [tauto | | ].
  - rewrite IH. split; intros [H | H]; auto; [left; congruence | left; congruence].
  - rewrite IH. split; [auto | intros [H | H]; [discriminate | exact H]].
Qed.

Lemma runRecords_lastRequestTimestamps_origin (tr : list event) (m : MetricsService)
    (c : MetricCategory) (t : Z) :
  lastRequestTimestamps (runRecords tr m) c = Some t ->
  lastRequestTimestamps m c = Some t \/ exists ev, In ev tr /\ ev_now ev = t.
Proof.
  revert m. induction tr as [| ev tr IH]; intros m H; [left; exact H |].
  unfold runRecords in H. simpl fold_left in H.
  fold (runRecords tr (recordRequest (ev_now ev) (ev_endpoint ev) (ev_time ev) m)) in H.
  destruct (IH _ H) as [H1 | [ev' [Hin Ht]]].
  - rewrite recordRequest_lastRequestTimestamps in H1.
    destruct (cat_eqb c (getCategoryFromEndpoint (ev_endpoint ev))).
    + right. exists ev. split; [left; reflexivity | congruence].
    + left. exact H1.
  - right. exists ev'. split; [right; exact Hin | exact Ht].
Qed.

Lemma fifo_push_nonempty (h : list Q) (x : Q) : fifo_push h x <> [].
Proof.
  unfold fifo_push. destruct (Nat.ltb DEFAULT_HISTORY_SIZE (length (h ++ [x]))) eqn:E.
  - apply Nat.ltb_lt in E. unfold DEFAULT_HISTORY_SIZE in E.
    destruct (h ++ [x]) as [| a [| b l]]; simpl in *; [lia | lia | discriminate].
  - intros H. apply app_eq_nil in H. destruct H as [_ H]. discriminate.
Qed.

(** [getDetailedMetrics().overall.lastRequestTimestamp] after a run of
    [recordRequest] calls is the time of the last call, provided no earlier
    call and no timestamp already held is later than it, and it is
    positive, as [Date.now()] is. *)
Lemma getDetailedMetrics_overall_last_timestamp (tr : list event) (e : event) (m : MetricsService) :
  (forall c t, lastRequestTimestamps m c = Some t -> t <= ev_now e) ->
  Forall (fun ev => ev_now ev <= ev_now e) tr ->
  0 < ev_now e ->
  lastRequestTimestamp (overall (getDetailedMetrics (runRecords (tr ++ [e]) m)))
    = Some (Fin (ev_now e)).
Proof.
  intros Hm Htr Hpos.
  set (m1 := runRecords (tr ++ [e]) m).
  assert (Hrun : m1 = recordRequest (ev_now e) (ev_endpoint e) (ev_time e) (runRecords tr m)).
  { unfold m1, runRecords. rewrite fold_left_app. reflexivity. }
  set (c0 := getCategoryFromEndpoint (ev_endpoint e)).
  assert (Hc0 : cat_eqb c0 c0 = true) by (apply cat_eqb_spec; reflexivity).
  assert (H0 : lastRequestTimestamps m1 c0 = Some (ev_now e)).
  { rewrite Hrun, recordRequest_lastRequestTimestamps. fold c0. rewrite Hc0. reflexivity. }
  assert (Hbound : forall c t, lastRequestTimestamps m1 c = Some t -> t <= ev_now e).
  { intros c t H. rewrite Hrun, recordRequest_lastRequestTimestamps in H.
    destruct (cat_eqb c (getCategoryFromEndpoint (ev_endpoint e))).
    - inversion H. lia.
    - destruct (runRecords_lastRequestTimestamps_origin _ _ _ _ H) as [H1 | [ev [Hin Ht]]].
      + apply (Hm c t H1).
      + rewrite Forall_forall in Htr. subst t. apply Htr, Hin. }
  assert (Hne : responseTimes m1 c0 <> []).
  { rewrite Hrun, recordRequest_responseTimes. fold c0. rewrite Hc0. apply fifo_push_nonempty. }
  unfold getDetailedMetrics. cbv beta zeta.
  destruct (flat_map (responseTimes m1) allCategories) as [| a l] eqn:E.
  { destruct (responseTimes m1 c0) as [| y ys] eqn:Ey; [congruence |].
    assert (Hy : In y (flat_map (responseTimes m1) allCategories)).
    { apply in_allTimes. exists c0. rewrite Ey. left. reflexivity. }
    rewrite E in Hy. contradiction. }
  cbn [overall lastRequestTimestamp].
  set (L := filter_some (map (lastRequestTimestamps m1) allCategories)).
  assert (HL : In (ev_now e) L).
  { apply filter_some_In. rewrite <- H0. apply in_map. destruct c0; simpl; tauto. }
  destruct (js_max_spec L) as [z [Hz [Hin Hall]]]; [intros H; rewrite H in HL; contradiction |].
  rewrite Hz.
  assert (Hz1 : z <= ev_now e).
  { apply filter_some_In, in_map_iff in Hin. destruct Hin as [c [Hc _]]. exact (Hbound c z Hc). }
  assert (Hz2 : ev_now e <= z) by (apply Hall, HL).
  replace z with (ev_now e) by lia.
  unfold or_null. destruct (ev_now e); [lia | reflexivity | lia].
Qed.

Lemma getDetailedMetrics_overall_last_timestamp_witness :
  (forall c t, lastRequestTimestamps initMetrics c = Some t -> t <= ev_now (mkEvent 7 "/me" 3)) /\
  Forall (fun ev => ev_now ev <= ev_now (mkEvent 7 "/me" 3)) [mkEvent 5 "/jobs" 10]%string /\
  0 < ev_now (mkEvent 7 "/me" 3) /\
  lastRequestTimestamp (overall (getDetailedMetrics
    (runRecords (app [mkEvent 5 "/jobs"%string 10] [mkEvent 7 "/me"%string 3]) initMetrics)))
    = Some (Fin (ev_now (mkEvent 7 "/me" 3))).
Proof.
  assert (H1 : forall c t, lastRequestTimestamps initMetrics c = Some t -> t <= ev_now (mkEvent 7 "/me" 3))
    by (intros c t H; discriminate).
  assert (H2 : Forall (fun ev => ev_now ev <= ev_now (mkEvent 7 "/me" 3)) [mkEvent 5 "/jobs" 10]%string)
    by (repeat constructor; simpl; lia).
  assert (H3 : 0 < ev_now (mkEvent 7 "/me" 3)) by (simpl; lia).
  split; [exact H1 | split; [exact H2 | split; [exact H3 |]]].
  exact (getDetailedMetrics_overall_last_timestamp _ _ _ H1 H2 H3).
Defined.

(** ** Categories of the paths the services request *)

Lemma prefix_app_true (p q s : string) :
  String.prefix p q = true -> String.prefix p (q ++ s) = true.
Proof.
  revert p. induction q as [| b q IH]; intros p H.
  - destruct p; [| discriminate]. destruct s; reflexivity.
  - destruct p as [| a p]; [reflexivity |]. simpl in *.
    destruct (Ascii.ascii_dec a b); [apply IH, H | discriminate].
Qed.

Lemma prefix_app_false (p q s : string) :
  String.prefix p q = false -> String.prefix q p = false -> String.prefix p (q ++ s) = false.
Proof.
  revert p. induction q as [| b q IH]; intros p H1 H2.
  - destruct p; discriminate.
  - destruct p as [| a p]; [discriminate |]. simpl in *.
    destruct (Ascii.ascii_dec a b) as [-> | Hne]; [| reflexivity].
    destruct (Ascii.ascii_dec b b) as [_ | Hbb]; [| congruence].
    apply IH; assumption.
Qed.

(** Extending a path that no key of [categoryMapping] extends keeps its
    category. *)
Lemma getCategoryFromEndpoint_extend (q s : string) :
  (forall k, In k (map fst categoryMapping) ->
     String.prefix k q = false -> String.prefix q k = false) ->
  getCategoryFromEndpoint (q ++ s) = getCategoryFromEndpoint q.
Proof.
  intros Hk. unfold getCategoryFromEndpoint.
  rewrite (filter_ext_in (fun prefix => String.prefix prefix (q ++ s))
             (fun prefix => String.prefix prefix q)); [reflexivity |].
  intros k Hin. destruct (String.prefix k q) eqn:E.
  - apply prefix_app_true, E.
  - apply prefix_app_false; [exact E | apply Hk; assumption].
Qed.

Ltac no_key_extends :=
  let k := fresh "k" in let Hin := fresh "Hin" in
  intros k Hin; simpl in Hin;
  repeat (destruct Hin as [<- | Hin]; [reflexivity || discriminate |]);
  contradiction.

(** The category [makeRequest] records for each family of resource paths:
    [getProfile] and [searchPeople] ([/people...]) count as [profile] (the
    [/search/people] key is never reached by a [/people] path), every
    [/messages...] path as [message] although [/me] is also a prefix of it,
    and every Marketing API path ([/rest/...]) and every path of
    [makeV2Request] ([/v2/...]) as [other]. *)
Lemma getCategoryFromEndpoint_paths (s : string) :
  getCategoryFromEndpoint ("/people" ++ s) = profile /\
  getCategoryFromEndpoint ("/jobs" ++ s) = job /\
  getCategoryFromEndpoint ("/messages" ++ s) = message /\
  getCategoryFromEndpoint ("/connections" ++ s) = connection /\
  getCategoryFromEndpoint ("/networkSizes" ++ s) = connection /\
  getCategoryFromEndpoint ("/rest/" ++ s) = other /\
  getCategoryFromEndpoint ("/v2/" ++ s) = other.
Proof.
  repeat split; rewrite getCategoryFromEndpoint_extend by no_key_extends; reflexivity.
Qed.

End MetricsExtra.
